(** * net/http/httptrace: server trace hooks on a context

    A shallow embedding of [server.go]: [ContextServerTrace],
    [WithServerTrace] and the reflective [compose] that merges the hooks
    of a new [*ServerTrace] with those already registered on a context.

    [compose] rewrites the fields of the new trace in place and the
    closure it builds keeps the reflect.Value [of], a handle on a field
    of the old trace.  Both are modelled: trace values live in a store
    indexed by field locations, and a composed hook records the location
    it will read when it is called. *)

From stdpp Require Import gmap list strings.

(** ** Data *)

(** Address of a [ServerTrace] value; [*ServerTrace] is [option loc],
    with [None] for the nil pointer. *)
Abbreviation loc := nat (only parsing).

(** Field [i] of the struct at address [p]: what [tv.Field(i)] designates
    when [tv] is the [Elem()] of a pointer. *)
Abbreviation slot := (nat * nat)%type (only parsing).

(** The kinds [compose] tells apart with [hookType.Kind() != reflect.Func]. *)
Inductive Kind := Func | Struct.

(** Function values.  [Callback id] is a function written by a caller of
    the package; [MakeFunc tfCopy ofv] is the closure [compose] builds with
    reflect.MakeFunc: it captured [tfCopy], the function value the new
    trace held, and [of], the field of the old trace. *)
Inductive FuncVal :=
| Callback (id : nat)
| MakeFunc (tfCopy : FuncVal) (ofv : slot).

(** The store: the non-nil function fields of every [ServerTrace].  A
    field that is absent from the map is nil. *)
Abbreviation store := (gmap (nat * nat) FuncVal) (only parsing).

(** Keys and values of a context.  [serverEventContextKey] is the key of
    the package; a context may also carry entries of other packages. *)
Inductive Key := serverEventContextKey | otherKey (k : nat).

Inductive Iface :=
| ServerTracePtr (p : option loc)
| otherValue (v : nat).

(** context.Context restricted to what the package uses: the background
    context and context.WithValue. *)
Inductive Context :=
| Background
| WithValue (parent : Context) (key : Key) (val : Iface).

(** Outcome of a Go call that may panic. *)
Inductive Result (A : Type) :=
| Ok (a : A)
| Panic (msg : string).
Arguments Ok {A} a.
Arguments Panic {A} msg.

(** How a call of a hook ends.  [OutOfFuel] only says that the bound given
    to [call] was reached. *)
Inductive Outcome := Returned | Panicked | OutOfFuel.

#[global] Instance Key_eq_dec : EqDecision Key.
Proof. solve_decision. Defined.

#[global] Instance Kind_eq_dec : EqDecision Kind.
Proof. solve_decision. Defined.

#[global] Instance FuncVal_eq_dec : EqDecision FuncVal.
Proof. solve_decision. Defined.

#[global] Instance Outcome_eq_dec : EqDecision Outcome.
Proof. solve_decision. Defined.

Section Httptrace.

(** The arguments a hook is called with ([args []reflect.Value]); the
    package never inspects them. *)
Context {Args : Type}.

(** The field list of [type ServerTrace struct] as reflection reports it,
    one kind per field.  server.go declares the struct without fields; its
    companion declares GotBadRequest, GotRequest, WroteHeader,
    WroteBodyChunk and HandlerDone, each written with its payload type in
    parentheses.  [compose] takes the list from [tv.Type()] and decides
    field by field on the kind, so the list is a parameter here and every
    statement holds for any of them. *)
Variable ServerTrace : list Kind.

(** ** Calling a hook *)

(** One entry per run of a caller's function: which one, and with what. *)
Definition Event : Type := nat * Args.

(** [call fuel h f args]: the caller functions run by [f(args)] in store
    [h], in order.  A closure made by [compose] runs
    [tfCopy.Call(args)] and then [of.Call(args)]; [of] is an addressable
    field, so [Call] takes the function the field holds at that moment,
    and panics on nil. *)
Fixpoint call (fuel : nat) (h : store) (f : FuncVal) (args : Args)
  : Outcome * list Event :=
  match fuel with
  | 0 => (OutOfFuel, [])
  | S n =>
    match f with
    | Callback id => (Returned, [(id, args)])
    | MakeFunc tfCopy ofv =>
      match call n h tfCopy args with
      | (Returned, l1) =>
        match h !! ofv with
        | None => (Panicked, l1)
        | Some g => let r := call n h g args in (r.1, l1 ++ r.2)
        end
      | r => r
      end
    end
  end.

(** ** server.go *)

(** [ctx.Value(key)]: the nearest entry under [key]. *)
Fixpoint Value (ctx : Context) (key : Key) : option Iface :=
  match ctx with
  | Background => None
  | WithValue parent k v => if decide (k = key) then Some v else Value parent key
  end.

(** The value under the key of the package, asserted to be a pointer to
    [ServerTrace] with the comma-ok form: a failed assertion leaves the nil
    pointer. *)
Definition ContextServerTrace (ctx : Context) : option loc :=
  match Value ctx serverEventContextKey with
  | Some (ServerTracePtr trace) => trace
  | _ => None
  end.

(** One round of the loop of [compose], for field [i]. *)
Definition compose_field (t old : loc) (h : store) (i : nat) : store :=
  match ServerTrace !! i with
  | Some Func =>
    match h !! (old, i) with
    | None => h                                   (* of.IsNil() *)
    | Some ofn =>
      match h !! (t, i) with
      | None => <[(t, i) := ofn]> h               (* tf.Set(of) *)
      | Some tfCopy => <[(t, i) := MakeFunc tfCopy (old, i)]> h
      end
    end
  | _ => h                                        (* not a func field *)
  end.

(** [compose(tv, ov)], with [tv] and [ov] the structs at [t] and [old]. *)
Definition compose (t old : loc) (h : store) : store :=
  foldl (compose_field t old) h (seq 0 (length ServerTrace)).

(** [func (t *ServerTrace) compose(old *ServerTrace)]. *)
Definition ServerTrace_compose (t : loc) (old : option loc) (h : store) : store :=
  match old with
  | None => h
  | Some o => compose t o h
  end.

Definition WithServerTrace (ctx : Context) (trace : option loc) (h : store)
  : Result (Context * store) :=
  match trace with
  | None => Panic "nil trace"
  | Some t =>
    let old := ContextServerTrace ctx in
    let h' := ServerTrace_compose t old h in
    Ok (WithValue ctx serverEventContextKey (ServerTracePtr (Some t)), h')
  end.

(** Binding a list of traces one after the other, each on the context the
    previous call returned. *)
Fixpoint bindAll (ctx : Context) (h : store) (ts : list loc)
  : Result (Context * store) :=
  match ts with
  | [] => Ok (ctx, h)
  | t :: ts' =>
    match WithServerTrace ctx (Some t) h with
    | Ok (ctx', h') => bindAll ctx' h' ts'
    | Panic msg => Panic msg
    end
  end.

(** ** Vocabulary of the statements *)

(** Field [i] of [ServerTrace] is a hook: a field of func kind. *)
Definition hook (i : nat) : Prop := ServerTrace !! i = Some Func.

(** What a round of [compose] leaves in a hook of the new trace, from what
    the new trace ([tf]) and the old one ([ofn]) held in that field. *)
Definition merged (tf ofn : option FuncVal) (old : loc) (i : nat)
  : option FuncVal :=
  match ofn with
  | None => tf
  | Some g =>
    match tf with
    | None => Some g
    | Some f => Some (MakeFunc f (old, i))
    end
  end.

(** [l] happened, then [r]. *)
Definition after (l : list Event) (r : Outcome * list Event)
  : Outcome * list Event := (r.1, l ++ r.2).

(** What the hooks registered on [ctx] do for field [i] in store [h]:
    nothing when [ctx] carries no trace or the field is nil. *)
Definition earlier (fuel : nat) (h : store) (ctx : Context) (i : nat)
  (args : Args) : Outcome * list Event :=
  match ContextServerTrace ctx with
  | None => (Returned, [])
  | Some o =>
    match h !! (o, i) with
    | None => (Returned, [])
    | Some g => call fuel h g args
    end
  end.

(** [ctx] carries no function for field [i]. *)
Definition unhooked (ctx : Context) (h : store) (i : nat) : Prop :=
  match ContextServerTrace ctx with
  | None => True
  | Some o => h !! (o, i) = None
  end.

(** The entries of a context under the key of the package, nearest first. *)
Fixpoint bound (ctx : Context) : list Iface :=
  match ctx with
  | Background => []
  | WithValue parent k v =>
    if decide (k = serverEventContextKey) then v :: bound parent else bound parent
  end.

(** The traces [ts] hold nothing but functions written by callers: none of
    them has been composed yet.  Nothing is asked of the other traces. *)
Definition uncomposed (h : store) (ts : list loc) : Prop :=
  ∀ t i f, t ∈ ts → h !! (t, i) = Some f → ∃ id, f = Callback id.

(** The events of the functions that the traces [ts], listed in the order
    they were bound, registered for field [i] in store [h0]: the most
    recently bound first. *)
Definition registered (h0 : store) (ts : list loc) (i : nat) (args : Args)
  : list Event :=
  flat_map (λ t, match h0 !! (t, i) with
                 | Some (Callback id) => [(id, args)]
                 | _ => []
                 end) (reverse ts).

(** The traces whose fields a function value holds on to. *)
Fixpoint reads (f : FuncVal) : list loc :=
  match f with
  | Callback _ => []
  | MakeFunc tfCopy ofv => ofv.1 :: reads tfCopy
  end.


(** [WithServerTrace ctx t] leaves every field of the trace [ctx] carried
    as it was. *)
Definition keeps_old (ctx : Context) (t : loc) (h : store) : Prop :=
  ∃ ctx' h', WithServerTrace ctx (Some t) h = Ok (ctx', h') ∧
    ∀ old, ContextServerTrace ctx = Some old →
      ∀ i, h' !! (old, i) = h !! (old, i).

(** After the traces [ts] were bound in turn on the background context in
    store [h0]: the lookup on the last context returns the last trace
    bound (nil when none was), and every hook of that trace, when called,
    returns after running what [ts] registered for it, most recent first;
    the hook is nil only when nothing was registered for it. *)
Definition chain_composed (h0 : store) (ts : list loc) : Prop :=
  ∃ ctx h, bindAll Background h0 ts = Ok (ctx, h) ∧
    ContextServerTrace ctx = last ts ∧
    ∀ t i (args : Args), last ts = Some t → hook i →
      match h !! (t, i) with
      | None => registered h0 ts i args = []
      | Some f => ∃ N, ∀ fuel, N ≤ fuel →
          call fuel h f args = (Returned, registered h0 ts i args)
      end.

(** ** Sample values *)

(** [type ServerTrace struct {}] of server.go: no field. *)
Definition serverGoFields : list Kind := [].

(** The declaration of the companion file: GotBadRequest, GotRequest,
    WroteHeader, WroteBodyChunk and HandlerDone, each declared with its
    payload struct as type. *)
Definition companionFields : list Kind :=
  [Struct; Struct; Struct; Struct; Struct].

(** A [ServerTrace] with two hooks and, between them, a field of another
    kind. *)
Definition sampleType : list Kind := [Func; Struct; Func].

(** Traces 1, 2 and 3 as three callers built them: each put a function of
    its own in field 0, and traces 1 and 3 one in field 2.  Trace 4 has
    no function at all. *)
Definition fresh3 : gmap (nat * nat) FuncVal :=
  {[ (1, 0) := Callback 10; (2, 0) := Callback 20; (3, 0) := Callback 30;
     (1, 2) := Callback 12; (3, 2) := Callback 32 ]}.

(** The same store when a trace 5 was bound before on a context that
    carried trace 1: field 0 of trace 5 is a closure over field 0 of
    trace 1. *)
Definition fresh3_beside : gmap (nat * nat) FuncVal :=
  <[(5, 0) := MakeFunc (Callback 50) (1, 0)]> fresh3.

(** The context [WithServerTrace] returns for the background context and
    trace [t]. *)
Definition ctxWith (t : loc) : Context :=
  WithValue Background serverEventContextKey (ServerTracePtr (Some t)).

(** ** The store after [compose] *)

#[global] Instance hook_dec i : Decision (hook i).
Proof. unfold hook. apply _. Defined.

Lemma compose_field_other t old h i p j :
  (p, j) ≠ (t, i) → compose_field t old h i !! (p, j) = h !! (p, j).
Proof.
  intros Hne. unfold compose_field.
  repeat case_match; try done; by rewrite lookup_insert_ne.
Qed.

Lemma compose_field_same t old h i :
  compose_field t old h i !! (t, i) =
    if decide (hook i) then merged (h !! (t, i)) (h !! (old, i)) old i
    else h !! (t, i).
Proof.
  unfold compose_field, merged. case_decide as Hh; unfold hook in Hh.
  - rewrite Hh. destruct (h !! (old, i)) as [g|] eqn:Ho; [|done].
    destruct (h !! (t, i)) as [f|] eqn:Ht; by rewrite lookup_insert_eq.
  - by destruct (ServerTrace !! i) as [[]|].
Qed.

(** The loop, over any list of distinct field numbers: a field of [t] is
    rewritten by its own round and by no other. *)
Lemma compose_rounds t old (fields : list nat) : ∀ h p j,
  NoDup fields →
  foldl (compose_field t old) h fields !! (p, j) =
    if decide (p = t ∧ j ∈ fields ∧ hook j)
    then merged (h !! (t, j)) (h !! (old, j)) old j
    else h !! (p, j).
Proof.
  induction fields as [|a fields IH]; intros h p j Hnd; simpl.
  - case_decide as H; [|done]. destruct H as (_ & H & _). by inversion H.
  - apply NoDup_cons in Hnd as [Ha Hnd]. rewrite IH by done.
    case_decide as H1.
    + destruct H1 as (-> & Hj & Hh).
      assert (j ≠ a) by (intros ->; done).
      rewrite !compose_field_other by congruence.
      rewrite decide_True; [done|]. split_and!; [done| |done]. by right.
    + destruct (decide ((p, j) = (t, a))) as [[= -> ->]|Hne].
      * rewrite compose_field_same. case_decide as Hh.
        -- rewrite decide_True; [done|]. split_and!; [done| |done]. by left.
        -- rewrite decide_False; [done|]. tauto.
      * rewrite compose_field_other by done.
        rewrite decide_False; [done|]. intros (-> & Hj & Hh).
        apply elem_of_cons in Hj as [->|Hj]; [done|]. apply H1. done.
Qed.

Lemma compose_lookup t old h p j :
  compose t old h !! (p, j) =
    if decide (p = t ∧ hook j)
    then merged (h !! (t, j)) (h !! (old, j)) old j
    else h !! (p, j).
Proof.
  unfold compose. rewrite compose_rounds by apply NoDup_seq.
  case_decide as H1; case_decide as H2; try done.
  - destruct H2. tauto.
  - destruct H1. destruct H2 as [-> Hh]. split_and!; [done| |done].
    apply elem_of_seq. split; [lia|]. simpl.
    by apply lookup_lt_Some in Hh.
Qed.

Lemma ServerTrace_compose_lookup t old h p j :
  ServerTrace_compose t old h !! (p, j) =
    match old with
    | None => h !! (p, j)
    | Some o =>
      if decide (p = t ∧ hook j)
      then merged (h !! (t, j)) (h !! (o, j)) o j
      else h !! (p, j)
    end.
Proof. destruct old; [apply compose_lookup|done]. Qed.

(** Only the trace that is being bound is written. *)
Lemma ServerTrace_compose_frame t old h p j :
  p ≠ t → ServerTrace_compose t old h !! (p, j) = h !! (p, j).
Proof.
  intros Hne. rewrite ServerTrace_compose_lookup.
  destruct old; [|done]. rewrite decide_False; [done|]. tauto.
Qed.

(** A hook of the bound trace whose counterpart on the context is nil
    keeps its value. *)
Lemma ServerTrace_compose_nil t old h j :
  match old with None => True | Some o => h !! (o, j) = None end →
  ServerTrace_compose t old h !! (t, j) = h !! (t, j).
Proof.
  intros Hnil. rewrite ServerTrace_compose_lookup.
  destruct old as [o|]; [|done]. case_decide; [|done]. by rewrite Hnil.
Qed.

Lemma ServerTrace_compose_hook t o h j :
  hook j →
  ServerTrace_compose t (Some o) h !! (t, j) =
    merged (h !! (t, j)) (h !! (o, j)) o j.
Proof.
  intros Hh. rewrite ServerTrace_compose_lookup. by rewrite decide_True.
Qed.

Lemma WithServerTrace_Some ctx t h :
  WithServerTrace ctx (Some t) h =
    Ok (WithValue ctx serverEventContextKey (ServerTracePtr (Some t)),
        ServerTrace_compose t (ContextServerTrace ctx) h).
Proof. done. Qed.

Lemma ContextServerTrace_WithValue ctx p :
  ContextServerTrace (WithValue ctx serverEventContextKey (ServerTracePtr p)) = p.
Proof. done. Qed.

(** A field that holds a function still holds one after a bind. *)
Lemma ServerTrace_compose_is_Some t old h p j :
  is_Some (h !! (p, j)) → is_Some (ServerTrace_compose t old h !! (p, j)).
Proof.
  intros [f Hf]. rewrite ServerTrace_compose_lookup.
  destruct old as [o|]; [|by rewrite Hf]. case_decide as H; [|by rewrite Hf].
  destruct H as [-> _]. rewrite Hf. unfold merged.
  destruct (h !! (o, j)); eauto.
Qed.

Lemma call_Callback (fuel : nat) (h : store) (id : nat) (args : Args) :
  1 ≤ fuel → call fuel h (Callback id) args = (Returned, [(id, args)]).
Proof. destruct fuel; [lia|done]. Qed.

Lemma call_MakeFunc_Callback (fuel : nat) (h : store) (id : nat) s g (args : Args) :
  h !! s = Some g →
  call (S (S fuel)) h (MakeFunc (Callback id) s) args =
    after [(id, args)] (call (S fuel) h g args).
Proof. intros Hs. simpl call at 1. by rewrite Hs. Qed.

(** A call does not depend on the fields of a trace that neither the
    function nor anything in the store holds on to. *)
Lemma call_frame (u : nat) (h h' : store) (args : Args) :
  (∀ p j, p ≠ u → h' !! (p, j) = h !! (p, j)) →
  (∀ s g, h !! s = Some g → u ∉ reads g) →
  ∀ fuel f, u ∉ reads f → call fuel h' f args = call fuel h f args.
Proof.
  intros Hsame Hstore. induction fuel as [|fuel IH]; intros f Hf; [done|].
  destruct f as [id|c [p j]]; [done|]. simpl in Hf.
  apply not_elem_of_cons in Hf as [Hp Hc]. simpl.
  rewrite (IH c Hc). destruct (call fuel h c args) as [[] l1]; try done.
  rewrite Hsame by done. destruct (h !! (p, j)) as [g|] eqn:Hg; [|done].
  by rewrite (IH g (Hstore _ _ Hg)).
Qed.

(** ** Binding and looking up *)

(** C5: [WithServerTrace] called with a nil trace panics with "nil trace"
    and returns no context, whatever the context; called with a trace that
    is not nil it returns a context. *)
Theorem WithServerTrace_nil_panics ctx h :
  WithServerTrace ctx None h = Panic "nil trace" ∧
  ∀ t, ∃ ctx' h', WithServerTrace ctx (Some t) h = Ok (ctx', h').
Proof. split; [done|]. intros t. rewrite WithServerTrace_Some. eauto. Qed.

(** C8: [ContextServerTrace] is a function of the context alone; it
    returns the pointer stored by the nearest entry under the key of the
    package, skips the entries under other keys, and returns nil, not a
    trace of its own making, when the chain has no entry under that key. *)
Theorem ContextServerTrace_nearest ctx :
  ContextServerTrace ctx =
    match head (bound ctx) with
    | Some (ServerTracePtr p) => p
    | _ => None
    end ∧
  ContextServerTrace Background = None ∧
  (∀ p, ContextServerTrace
          (WithValue ctx serverEventContextKey (ServerTracePtr p)) = p) ∧
  (∀ k v, ContextServerTrace (WithValue ctx (otherKey k) v) =
          ContextServerTrace ctx).
Proof.
  split_and!; try done.
  induction ctx as [|parent IH k v]; [done|].
  unfold ContextServerTrace in *. simpl.
  destruct (decide (k = serverEventContextKey)); [done|]. apply IH.
Qed.

(** C9: the trace found on the context that [WithServerTrace ctx t]
    returns is the pointer [t] the caller passed, not a copy. *)
Theorem WithServerTrace_stores_pointer ctx t h :
  ∃ ctx' h', WithServerTrace ctx (Some t) h = Ok (ctx', h') ∧
    ContextServerTrace ctx' = Some t.
Proof. rewrite WithServerTrace_Some. eauto. Qed.

(** C6: on a context that carries no trace, [WithServerTrace ctx t] leaves
    the store as it is and the lookup on the new context returns [t]:
    every field of [t] holds what the caller put there, and calls behave
    as before. *)
Theorem first_bind_identity ctx t h :
  ContextServerTrace ctx = None →
  ∃ ctx', WithServerTrace ctx (Some t) h = Ok (ctx', h) ∧
    ContextServerTrace ctx' = Some t.
Proof. intros Hnone. rewrite WithServerTrace_Some, Hnone. eauto. Qed.

(** C7: binding a trace [t] whose fields are all nil on a context that
    carries [old] leaves in every hook of [t] exactly what [old] holds in
    that hook, and [old] is as before.  The functions behave as they did
    before the bind, as long as no closure in the store held on to a field
    of [t]. *)
Theorem empty_trace_passthrough ctx t old h :
  ContextServerTrace ctx = Some old →
  (∀ i, h !! (t, i) = None) →
  ∃ ctx' h', WithServerTrace ctx (Some t) h = Ok (ctx', h') ∧
    ContextServerTrace ctx' = Some t ∧
    (∀ i, hook i →
       h' !! (t, i) = h !! (old, i) ∧ h' !! (old, i) = h !! (old, i)) ∧
    ((∀ s g, h !! s = Some g → t ∉ reads g) →
     ∀ i f fuel (args : Args), h' !! (t, i) = Some f →
       call fuel h' f args = call fuel h f args).
Proof.
  intros Hold Hnil. rewrite WithServerTrace_Some, Hold.
  eexists _, _. split_and!; [done..| |].
  - intros i Hh.
    assert (ServerTrace_compose t (Some old) h !! (t, i) = h !! (old, i)) as Ht.
    { rewrite ServerTrace_compose_hook, Hnil by done. unfold merged.
      by destruct (h !! (old, i)). }
    split; [done|]. destruct (decide (old = t)) as [->|Hne].
    + by rewrite Ht.
    + by apply ServerTrace_compose_frame.
  - intros Hstore i f fuel args Hf. apply (call_frame t); [|done|].
    + intros p j Hp. by apply ServerTrace_compose_frame.
    + rewrite ServerTrace_compose_lookup, Hnil in Hf.
      case_decide; [|done]. unfold merged in Hf.
      destruct (h !! (old, i)) as [g|] eqn:Hg; [|done].
      injection Hf as <-. by eapply Hstore.
Qed.

(** X14: [WithServerTrace ctx t] stores [t] itself and composes into its
    fields.  A field keeps the caller's value when [ctx] carries no trace,
    when the field is not of func kind, or when the carried trace has nil
    there; otherwise it receives the carried trace's function (the caller
    left nil) or a closure over the caller's function and the carried
    trace's field. *)
Theorem WithServerTrace_rewrites_in_place ctx t h :
  ∃ ctx' h', WithServerTrace ctx (Some t) h = Ok (ctx', h') ∧
    ContextServerTrace ctx' = Some t ∧
    ∀ i, h' !! (t, i) =
      match ContextServerTrace ctx with
      | None => h !! (t, i)
      | Some old =>
        if decide (hook i) then merged (h !! (t, i)) (h !! (old, i)) old i
        else h !! (t, i)
      end.
Proof.
  rewrite WithServerTrace_Some. eexists _, _. split_and!; [done..|].
  intros i. rewrite ServerTrace_compose_lookup.
  destruct (ContextServerTrace ctx); [|done].
  case_decide as H1; case_decide as H2; try done; tauto.
Qed.

(** X13: [WithServerTrace ctx t] writes fields of [t] only: every field
    of any other trace [p] is left as it was. *)
Theorem WithServerTrace_writes_new_only ctx t h p :
  p ≠ t →
  ∃ ctx' h', WithServerTrace ctx (Some t) h = Ok (ctx', h') ∧
    ∀ i, h' !! (p, i) = h !! (p, i).
Proof.
  intros Hne. rewrite WithServerTrace_Some. eexists _, _. split; [done|].
  intros i. by apply ServerTrace_compose_frame.
Qed.


Lemma keeps_old_other ctx t h :
  ContextServerTrace ctx ≠ Some t → keeps_old ctx t h.
Proof.
  intros Hne. unfold keeps_old. rewrite WithServerTrace_Some.
  eexists _, _. split; [done|]. intros old Hold i.
  apply ServerTrace_compose_frame. congruence.
Qed.

Lemma keeps_old_without_hooks ctx t h :
  (∀ i, ¬ hook i) → keeps_old ctx t h.
Proof.
  intros Hno. unfold keeps_old. rewrite WithServerTrace_Some.
  eexists _, _. split; [done|]. intros old Hold i.
  rewrite ServerTrace_compose_lookup.
  destruct (ContextServerTrace ctx); [|done].
  rewrite decide_False; [done|]. intros [_ Hh]. by apply (Hno i).
Qed.

(** ** Order of the composed hooks *)

Lemma bindAll_cons ctx h t ts :
  bindAll ctx h (t :: ts) =
    bindAll (WithValue ctx serverEventContextKey (ServerTracePtr (Some t)))
            (ServerTrace_compose t (ContextServerTrace ctx) h) ts.
Proof. done. Qed.

Lemma bindAll_nil ctx h : bindAll ctx h [] = Ok (ctx, h).
Proof. done. Qed.

Lemma after_after (l1 l2 : list Event) r :
  after l1 (after l2 r) = after (l1 ++ l2) r.
Proof. unfold after. simpl. by rewrite app_assoc. Qed.

(** Binding [t], which holds a caller's function in hook [i], on a context
    that carries a function for that hook: the composed hook runs the
    caller's function and then the field of the carried trace. *)
Lemma bind_on_hooked ctx t o h i id g :
  hook i → ContextServerTrace ctx = Some o →
  h !! (t, i) = Some (Callback id) → h !! (o, i) = Some g →
  ServerTrace_compose t (ContextServerTrace ctx) h !! (t, i) =
    Some (MakeFunc (Callback id) (o, i)).
Proof.
  intros Hh -> Ht Ho. by rewrite ServerTrace_compose_hook, Ht, Ho.
Qed.

Lemma bind_on_unhooked ctx t h i :
  unhooked ctx h i →
  ServerTrace_compose t (ContextServerTrace ctx) h !! (t, i) = h !! (t, i).
Proof. intros Hu. by apply ServerTrace_compose_nil. Qed.

(** C1: [A] and [B] are two traces with a caller's function in hook [i]
    ([a] and [b]), bound in that order on any context [ctx].  The lookup
    on the last context returns [B]; calling its hook [i] runs [b] first
    and [a] second, both with the arguments of the call, and then hands
    over to what [ctx] carried for that hook.  When [ctx] carried nothing
    for it the call returns after exactly these two runs, and when [ctx]
    carried a third trace with a caller's function [o] there, after
    exactly [b], [a], [o]. *)
Theorem bind_two_order ctx h A B i a b (args : Args) :
  A ≠ B → hook i →
  h !! (A, i) = Some (Callback a) → h !! (B, i) = Some (Callback b) →
  ∃ ctx2 h2 f, bindAll ctx h [A; B] = Ok (ctx2, h2) ∧
    ContextServerTrace ctx2 = Some B ∧
    h2 !! (B, i) = Some f ∧
    (∀ n, call (3 + n) h2 f args =
          after [(b, args); (a, args)] (earlier (1 + n) h2 ctx i args)) ∧
    (unhooked ctx h i → ∀ fuel, 2 ≤ fuel →
       call fuel h2 f args = (Returned, [(b, args); (a, args)])) ∧
    (∀ O o, ContextServerTrace ctx = Some O → O ≠ A → O ≠ B →
       h !! (O, i) = Some (Callback o) → ∀ fuel, 3 ≤ fuel →
       call fuel h2 f args =
         (Returned, [(b, args); (a, args); (o, args)])).
Proof.
  intros Hne Hh HA HB.
  rewrite !bindAll_cons, bindAll_nil, ContextServerTrace_WithValue.
  set (h1 := ServerTrace_compose A (ContextServerTrace ctx) h).
  set (h2 := ServerTrace_compose B (Some A) h1).
  assert (h1 !! (B, i) = Some (Callback b)) as HB1.
  { unfold h1. by rewrite ServerTrace_compose_frame. }
  assert (is_Some (h1 !! (A, i))) as [g HA1].
  { apply ServerTrace_compose_is_Some. eauto. }
  assert (h2 !! (A, i) = Some g) as HA2.
  { unfold h2. by rewrite ServerTrace_compose_frame. }
  assert (h2 !! (B, i) = Some (MakeFunc (Callback b) (A, i))) as HB2.
  { unfold h2. by rewrite ServerTrace_compose_hook, HB1, HA1. }
  eexists _, _, _. split_and!; [done..| | |].
  - intros n. change (3 + n) with (S (S (S n))).
    rewrite (call_MakeFunc_Callback _ _ _ _ _ _ HA2).
    unfold earlier. destruct (ContextServerTrace ctx) as [o|] eqn:Hctx.
    + destruct (h !! (o, i)) as [g0|] eqn:Ho.
      * assert (g = MakeFunc (Callback a) (o, i)) as ->.
        { unfold h1 in HA1. rewrite <-Hctx in HA1.
          rewrite (bind_on_hooked _ _ _ _ _ _ _ Hh Hctx HA Ho) in HA1.
          congruence. }
        assert (is_Some (h2 !! (o, i))) as [g' Ho2].
        { unfold h2, h1. do 2 apply ServerTrace_compose_is_Some. eauto. }
        rewrite Ho2, (call_MakeFunc_Callback _ _ _ _ _ _ Ho2).
        by rewrite after_after.
      * assert (o ≠ A) by congruence. assert (o ≠ B) by congruence.
        assert (h2 !! (o, i) = None) as ->.
        { unfold h2, h1. by rewrite !ServerTrace_compose_frame. }
        assert (g = Callback a) as ->.
        { unfold h1 in HA1. rewrite ServerTrace_compose_nil in HA1; congruence. }
        by rewrite call_Callback by lia.
    + assert (g = Callback a) as ->.
      { unfold h1 in HA1. simpl in HA1. congruence. }
      by rewrite call_Callback by lia.
  - intros Hu fuel Hfuel.
    assert (g = Callback a) as ->.
    { unfold h1 in HA1. rewrite bind_on_unhooked in HA1; congruence. }
    destruct fuel as [|[|m]]; [lia..|].
    rewrite (call_MakeFunc_Callback _ _ _ _ _ _ HA2).
    by rewrite call_Callback by lia.
  - intros O o Hctx HOA HOB HO fuel Hfuel.
    assert (g = MakeFunc (Callback a) (O, i)) as ->.
    { unfold h1 in HA1.
      rewrite (bind_on_hooked _ _ _ _ _ _ _ Hh Hctx HA HO) in HA1.
      congruence. }
    assert (h2 !! (O, i) = Some (Callback o)) as HO2.
    { unfold h2, h1. by rewrite !ServerTrace_compose_frame. }
    destruct fuel as [|[|[|m]]]; [lia..|].
    rewrite (call_MakeFunc_Callback _ _ _ _ _ _ HA2).
    rewrite (call_MakeFunc_Callback _ _ _ _ _ _ HO2).
    by rewrite call_Callback by lia.
Qed.

(** C4: three traces [A], [B] and [C], each with a caller's function in
    hook [i], bound in that order on a context that carried nothing for
    the hook.  The lookup on the last context returns [C], and calling its
    hook [i] returns, with any bound of three or more, after three runs:
    [C]'s function, [B]'s, [A]'s. *)
Theorem bind_three_order ctx h A B C i a b c (args : Args) :
  NoDup [A; B; C] → hook i → unhooked ctx h i →
  h !! (A, i) = Some (Callback a) →
  h !! (B, i) = Some (Callback b) →
  h !! (C, i) = Some (Callback c) →
  ∃ ctx3 h3 f, bindAll ctx h [A; B; C] = Ok (ctx3, h3) ∧
    ContextServerTrace ctx3 = Some C ∧
    h3 !! (C, i) = Some f ∧
    ∀ fuel, 3 ≤ fuel →
      call fuel h3 f args = (Returned, [(c, args); (b, args); (a, args)]).
Proof.
  intros Hnd Hh Hu HA HB HC.
  apply NoDup_cons in Hnd as [HAn Hnd]. apply NoDup_cons in Hnd as [HBn _].
  assert (A ≠ B) by (intros ->; apply HAn; by left).
  assert (A ≠ C) by (intros ->; apply HAn; right; by left).
  assert (B ≠ C) by (intros ->; apply HBn; by left).
  rewrite !bindAll_cons, bindAll_nil, !ContextServerTrace_WithValue.
  set (h1 := ServerTrace_compose A (ContextServerTrace ctx) h).
  set (h2 := ServerTrace_compose B (Some A) h1).
  set (h3 := ServerTrace_compose C (Some B) h2).
  assert (h1 !! (A, i) = Some (Callback a)) as HA1.
  { unfold h1. by rewrite bind_on_unhooked. }
  assert (h1 !! (B, i) = Some (Callback b)) as HB1.
  { unfold h1. by rewrite ServerTrace_compose_frame. }
  assert (h1 !! (C, i) = Some (Callback c)) as HC1.
  { unfold h1. by rewrite ServerTrace_compose_frame. }
  assert (h2 !! (A, i) = Some (Callback a)) as HA2.
  { unfold h2. by rewrite ServerTrace_compose_frame. }
  assert (h2 !! (B, i) = Some (MakeFunc (Callback b) (A, i))) as HB2.
  { unfold h2. by rewrite ServerTrace_compose_hook, HB1, HA1. }
  assert (h2 !! (C, i) = Some (Callback c)) as HC2.
  { unfold h2. by rewrite ServerTrace_compose_frame. }
  assert (h3 !! (A, i) = Some (Callback a)) as HA3.
  { unfold h3. by rewrite ServerTrace_compose_frame. }
  assert (h3 !! (B, i) = Some (MakeFunc (Callback b) (A, i))) as HB3.
  { unfold h3. by rewrite ServerTrace_compose_frame. }
  assert (h3 !! (C, i) = Some (MakeFunc (Callback c) (B, i))) as HC3.
  { unfold h3. by rewrite ServerTrace_compose_hook, HC2, HB2. }
  eexists _, _, _. split_and!; [done..|].
  intros fuel Hfuel. destruct fuel as [|[|[|m]]]; [lia..|].
  rewrite (call_MakeFunc_Callback _ _ _ _ _ _ HB3).
  rewrite (call_MakeFunc_Callback _ _ _ _ _ _ HA3).
  by rewrite call_Callback by lia.
Qed.

(** ** Chains of binds *)

Lemma bindAll_snoc ctx h ts u :
  bindAll ctx h (ts ++ [u]) =
    match bindAll ctx h ts with
    | Ok (ctx', h') => WithServerTrace ctx' (Some u) h'
    | Panic msg => Panic msg
    end.
Proof.
  revert ctx h. induction ts as [|t ts IH]; intros ctx h; [done|].
  rewrite <-app_comm_cons, !bindAll_cons. apply IH.
Qed.

Lemma registered_snoc h0 ts u i (args : Args) :
  registered h0 (ts ++ [u]) i args =
    match h0 !! (u, i) with
    | Some (Callback id) => [(id, args)]
    | _ => []
    end ++ registered h0 ts i args.
Proof. unfold registered. by rewrite reverse_snoc. Qed.

(** The lookup after a sequence of binds: the last trace bound. *)
Lemma bindAll_last ts : ∀ ctx (h : store),
  ∃ ctx' h', bindAll ctx h ts = Ok (ctx', h') ∧
    ContextServerTrace ctx' =
      match last ts with
      | Some t => Some t
      | None => ContextServerTrace ctx
      end.
Proof.
  induction ts as [|u ts IH] using rev_ind; intros ctx h.
  - rewrite bindAll_nil. by eexists _, _.
  - destruct (IH ctx h) as (ctx' & h' & Hbind & _).
    rewrite bindAll_snoc, Hbind, WithServerTrace_Some, last_snoc.
    by eexists _, _.
Qed.

(** A call does not depend on the fields of a trace outside a set of
    traces whose functions hold on to one another only. *)
Lemma call_frame_closed (u : nat) (ts : list nat) (h h' : store)
    (args : Args) :
  (∀ p j, p ≠ u → h' !! (p, j) = h !! (p, j)) →
  u ∉ ts →
  (∀ p j g, p ∈ ts → h !! (p, j) = Some g → ∀ q, q ∈ reads g → q ∈ ts) →
  ∀ fuel f, (∀ q, q ∈ reads f → q ∈ ts) →
    call fuel h' f args = call fuel h f args.
Proof.
  intros Hsame Hu Hclosed. induction fuel as [|fuel IH]; intros f Hf; [done|].
  destruct f as [id|c [p j]]; [done|]. simpl in Hf. simpl.
  assert (p ∈ ts) as Hp by (apply Hf; by left).
  assert (p ≠ u) as Hpu by (intros ->; done).
  rewrite (IH c) by (intros q Hq; apply Hf; by right).
  destruct (call fuel h c args) as [[] l1]; try done.
  rewrite Hsame by done. destruct (h !! (p, j)) as [g|] eqn:Hg; [|done].
  by rewrite (IH g (Hclosed _ _ _ Hp Hg)).
Qed.

(** What holds after the distinct traces [ts], none of them composed
    before, were bound in turn on the background context. *)
Lemma bindAll_invariant h0 ts :
  NoDup ts → uncomposed h0 ts →
  ∃ ctx h, bindAll Background h0 ts = Ok (ctx, h) ∧
    ContextServerTrace ctx = last ts ∧
    (∀ p j, p ∉ ts → h !! (p, j) = h0 !! (p, j)) ∧
    (∀ p j g, p ∈ ts → h !! (p, j) = Some g →
       ∀ q, q ∈ reads g → q ∈ ts) ∧
    (∀ t i (args : Args), last ts = Some t → hook i →
       match h !! (t, i) with
       | None => registered h0 ts i args = []
       | Some f => ∃ N, ∀ fuel, N ≤ fuel →
           call fuel h f args = (Returned, registered h0 ts i args)
       end).
Proof.
  induction ts as [|u ts IH] using rev_ind; intros Hnd Hun.
  { eexists _, _. split_and!; [done..| |done].
    intros p j g Hp. by inversion Hp. }
  apply NoDup_app in Hnd as (Hnd & Hu & _).
  assert (u ∉ ts) as Hu'.
  { intros Hin. apply (Hu u Hin). by left. }
  assert (uncomposed h0 ts) as Hun'.
  { intros t i f Ht. apply Hun. apply elem_of_app. by left. }
  destruct (IH Hnd Hun') as (ctx & h & Hbind & Hctx & Hframe & Hreads & Hrun).
  rewrite bindAll_snoc, Hbind, WithServerTrace_Some, Hctx.
  set (h' := ServerTrace_compose u (last ts) h).
  assert (∀ p j, p ≠ u → h' !! (p, j) = h !! (p, j)) as Hsame.
  { intros p j Hp. by apply ServerTrace_compose_frame. }
  assert (∀ j, h !! (u, j) = None ∨ ∃ id, h !! (u, j) = Some (Callback id))
    as Hfresh.
  { intros j. rewrite Hframe by done.
    destruct (h0 !! (u, j)) as [f|] eqn:Hf; [|by left].
    destruct (Hun u j f) as [id ->]; [|done|eauto].
    apply elem_of_app. right. by left. }
  assert (∀ j g q, h !! (u, j) = Some g → q ∈ reads g → False) as Hnone.
  { intros j g q Hg Hq. destruct (Hfresh j) as [Hj | [id Hj]];
      rewrite Hj in Hg; [done|]. injection Hg as <-. by inversion Hq. }
  eexists _, _. split_and!; [done| | | |].
  - by rewrite ContextServerTrace_WithValue, last_snoc.
  - intros p j [Hp Hpu]%not_elem_of_app. rewrite Hsame, Hframe; [done..|].
    intros ->. apply Hpu. by left.
  - intros p j g Hp Hg q Hq. apply elem_of_app.
    unfold h' in Hg. rewrite ServerTrace_compose_lookup in Hg.
    assert (∀ g', h !! (p, j) = Some g' → q ∈ reads g' → q ∈ ts) as Hold.
    { intros g' Hg' Hq'. apply elem_of_app in Hp as [Hp | Hp].
      - by eapply Hreads.
      - apply list_elem_of_singleton in Hp as ->.
        by destruct (Hnone _ _ _ Hg' Hq'). }
    destruct (last ts) as [o|] eqn:Hlast; [|left; by eapply Hold].
    case_decide as Hd; [|left; by eapply Hold]. destruct Hd as [-> Hh].
    unfold merged in Hg.
    destruct (h !! (o, j)) as [g0|] eqn:Ho; [|left; by eapply Hold].
    assert (o ∈ ts) as Hots by by apply last_Some_elem_of.
    destruct (Hfresh j) as [Hj | [id Hj]]; rewrite Hj in Hg;
      injection Hg as <-.
    + left. by eapply Hreads.
    + left. simpl in Hq. apply elem_of_cons in Hq as [-> | Hq]; [done|].
      by inversion Hq.
  - intros t i args Ht Hh. rewrite last_snoc in Ht. injection Ht as <-.
    rewrite registered_snoc. rewrite <-(Hframe u i) by done.
    unfold h'. destruct (last ts) as [o|] eqn:Hlast.
    + assert (o ∈ ts) as Ho by by apply last_Some_elem_of.
      assert (o ≠ u) as Hou by (intros ->; done).
      rewrite ServerTrace_compose_hook by done.
      specialize (Hrun o i args eq_refl Hh).
      destruct (h !! (o, i)) as [g|] eqn:Hg; simpl.
      * destruct Hrun as [N HN].
        assert (∀ fuel, call fuel h' g args = call fuel h g args) as Hcall.
        { intros fuel. apply (call_frame_closed u ts); [done..|].
          by eapply Hreads. }
        destruct (Hfresh i) as [-> | [id ->]]; simpl.
        -- exists N. intros fuel Hfuel. fold h'. rewrite Hcall. by apply HN.
        -- exists (S (S N)). intros fuel Hfuel.
           destruct fuel as [|[|m]]; [lia..|]. fold h'.
           assert (h' !! (o, i) = Some g) as Ho' by by rewrite Hsame.
           rewrite (call_MakeFunc_Callback _ _ _ _ _ _ Ho'), Hcall.
           rewrite HN by lia. done.
      * rewrite Hrun, app_nil_r.
        destruct (Hfresh i) as [-> | [id ->]]; [done|].
        exists 1. intros fuel Hfuel. by rewrite call_Callback.
    + apply last_None in Hlast as ->. simpl.
      destruct (Hfresh i) as [-> | [id ->]]; [done|].
      exists 1. intros fuel Hfuel. by rewrite call_Callback.
Qed.

Lemma chain_composed_distinct h0 ts :
  NoDup ts → uncomposed h0 ts → chain_composed h0 ts.
Proof.
  intros Hnd Hun.
  destruct (bindAll_invariant h0 ts Hnd Hun)
    as (ctx & h & Hbind & Hctx & _ & _ & Hrun).
  by exists ctx, h.
Qed.

(** Without a func field every chain is composed: there is no hook. *)
Lemma chain_composed_without_hooks h0 ts :
  (∀ i, ¬ hook i) → chain_composed h0 ts.
Proof.
  intros Hno. destruct (bindAll_last ts Background h0)
    as (ctx & h & Hbind & Hctx).
  exists ctx, h. split_and!; [done| |].
  - rewrite Hctx. by destruct (last ts).
  - intros t i args _ Hh. by destruct (Hno i).
Qed.

(** ** Call cycles *)

(** A set of closures, each of which ends by calling a field that holds a
    member of the set: no call of a member returns. *)
Lemma call_cycle (h : store) (P : FuncVal → Prop) (args : Args) :
  (∀ f, P f → ∃ c s g, f = MakeFunc c s ∧ h !! s = Some g ∧ P g) →
  ∀ fuel f, P f → (call fuel h f args).1 ≠ Returned.
Proof.
  intros Hcyc. induction fuel as [|fuel IH]; intros f Hf; [done|].
  destruct (Hcyc f Hf) as (c & s & g & -> & Hs & Hg). simpl.
  destruct (call fuel h c args) as [[] l1]; [|done..].
  rewrite Hs. simpl. by apply IH.
Qed.

(** A struct without func fields is left alone by [compose]. *)
Lemma compose_without_hooks t old h :
  (∀ i, ¬ hook i) → compose t old h = h.
Proof.
  intros Hno. apply map_eq. intros [p j]. rewrite compose_lookup.
  rewrite decide_False; [done|]. intros [_ Hh]. by apply (Hno j).
Qed.

(** ** What a bind never does, and what it shares *)

(** X2: no bind sets a field to nil: a field that holds a function holds
    one after any sequence of binds, whatever traces are bound and in
    whatever order. *)
Theorem bindAll_keeps_hooks ts : ∀ ctx h (s : slot),
  is_Some (h !! s) →
  ∃ ctx' h', bindAll ctx h ts = Ok (ctx', h') ∧ is_Some (h' !! s).
Proof.
  induction ts as [|t ts IH]; intros ctx h [p j] Hs.
  - rewrite bindAll_nil. eauto.
  - rewrite bindAll_cons. apply IH. by apply ServerTrace_compose_is_Some.
Qed.

(** X3: after [t] is bound on a context that carries [old], a hook of [t]
    is nil exactly when it was nil in both: a function registered by
    either side is never lost. *)
Theorem merged_hook_nil_iff ctx t old h i :
  hook i → ContextServerTrace ctx = Some old →
  ∃ ctx' h', WithServerTrace ctx (Some t) h = Ok (ctx', h') ∧
    (h' !! (t, i) = None ↔ h !! (t, i) = None ∧ h !! (old, i) = None).
Proof.
  intros Hh Hold. rewrite WithServerTrace_Some, Hold.
  eexists _, _. split; [done|].
  rewrite ServerTrace_compose_hook by done. unfold merged.
  destruct (h !! (old, i)), (h !! (t, i)); intuition congruence.
Qed.

(** X4: binding on a context whose trace has nil in every field changes
    nothing in the store: each round stops at [of.IsNil()]. *)
Theorem bind_on_empty_trace ctx t old h :
  ContextServerTrace ctx = Some old →
  (∀ i, h !! (old, i) = None) →
  ∃ ctx', WithServerTrace ctx (Some t) h = Ok (ctx', h) ∧
    ContextServerTrace ctx' = Some t.
Proof.
  intros Hold Hnil. rewrite WithServerTrace_Some, Hold.
  assert (ServerTrace_compose t (Some old) h = h) as ->; [|eauto].
  apply map_eq. intros [p j]. rewrite ServerTrace_compose_lookup.
  case_decide as Hd; [|done]. destruct Hd as [-> _]. by rewrite Hnil.
Qed.

(** X5: binding a trace on a context that already carries that very trace
    stores, in each hook that holds a function, a closure whose field [of]
    is the field the closure is stored in: no call of the hook returns. *)
Theorem rebind_carried_never_returns ctx t h i f (args : Args) :
  hook i → ContextServerTrace ctx = Some t → h !! (t, i) = Some f →
  ∃ ctx' h' g, WithServerTrace ctx (Some t) h = Ok (ctx', h') ∧
    h' !! (t, i) = Some g ∧
    ∀ fuel, (call fuel h' g args).1 ≠ Returned.
Proof.
  intros Hh Hctx Hf. rewrite WithServerTrace_Some, Hctx.
  set (h' := ServerTrace_compose t (Some t) h).
  assert (h' !! (t, i) = Some (MakeFunc f (t, i))) as Hg.
  { unfold h'. by rewrite ServerTrace_compose_hook, Hf. }
  eexists _, _, _. split_and!; [done..|]. intros fuel.
  apply (call_cycle h' (λ g, g = MakeFunc f (t, i))); [|done].
  intros g ->. eexists _, _, _. by split_and!.
Qed.

(** X7: a composed hook reads the field of the old trace when it runs.
    [t] is bound on a context that carries [old], both with a function in
    hook [i]; the hook of [t] runs [a] and then [o].  When [old] is later
    bound on some other context, one that carries [c], the hook of [t]
    runs [a], [o] and the function of [c] as well, though [c] was never
    bound on a context [t] was bound on. *)
Theorem composed_hook_follows_old ctx ctxc t old c h i a o k (args : Args) :
  t ≠ old → t ≠ c → old ≠ c → hook i →
  ContextServerTrace ctx = Some old → ContextServerTrace ctxc = Some c →
  h !! (t, i) = Some (Callback a) →
  h !! (old, i) = Some (Callback o) →
  h !! (c, i) = Some (Callback k) →
  ∃ ctx1 h1 ctx2 h2 f,
    WithServerTrace ctx (Some t) h = Ok (ctx1, h1) ∧
    WithServerTrace ctxc (Some old) h1 = Ok (ctx2, h2) ∧
    h1 !! (t, i) = Some f ∧ h2 !! (t, i) = Some f ∧
    (∀ fuel, 2 ≤ fuel →
       call fuel h1 f args = (Returned, [(a, args); (o, args)])) ∧
    (∀ fuel, 3 ≤ fuel →
       call fuel h2 f args = (Returned, [(a, args); (o, args); (k, args)])).
Proof.
  intros Hto Htc Hoc Hh Hctx Hctxc Ht Ho Hc.
  pose (h1 := ServerTrace_compose t (Some old) h).
  pose (h2 := ServerTrace_compose old (Some c) h1).
  assert (WithServerTrace ctx (Some t) h =
          Ok (WithValue ctx serverEventContextKey (ServerTracePtr (Some t)), h1))
    as Hb1 by by rewrite WithServerTrace_Some, Hctx.
  assert (WithServerTrace ctxc (Some old) h1 =
          Ok (WithValue ctxc serverEventContextKey (ServerTracePtr (Some old)), h2))
    as Hb2 by by rewrite WithServerTrace_Some, Hctxc.
  assert (h1 !! (t, i) = Some (MakeFunc (Callback a) (old, i))) as Ht1.
  { unfold h1. by rewrite ServerTrace_compose_hook, Ht, Ho. }
  assert (h1 !! (old, i) = Some (Callback o)) as Ho1.
  { unfold h1. by rewrite ServerTrace_compose_frame. }
  assert (h1 !! (c, i) = Some (Callback k)) as Hc1.
  { unfold h1. by rewrite ServerTrace_compose_frame. }
  assert (h2 !! (t, i) = Some (MakeFunc (Callback a) (old, i))) as Ht2.
  { unfold h2. by rewrite ServerTrace_compose_frame. }
  assert (h2 !! (old, i) = Some (MakeFunc (Callback o) (c, i))) as Ho2.
  { unfold h2. by rewrite ServerTrace_compose_hook, Ho1, Hc1. }
  assert (h2 !! (c, i) = Some (Callback k)) as Hc2.
  { unfold h2. by rewrite ServerTrace_compose_frame. }
  eexists _, h1, _, h2, _. split_and!; [done..| |].
  - intros fuel Hfuel. destruct fuel as [|[|m]]; [lia..|].
    rewrite (call_MakeFunc_Callback _ _ _ _ _ _ Ho1).
    by rewrite call_Callback by lia.
  - intros fuel Hfuel. destruct fuel as [|[|[|m]]]; [lia..|].
    rewrite (call_MakeFunc_Callback _ _ _ _ _ _ Ho2).
    rewrite (call_MakeFunc_Callback _ _ _ _ _ _ Hc2).
    by rewrite call_Callback by lia.
Qed.

(** X8: a hook that [t] left nil receives the function [old] holds at the
    time of the bind, by value ([tf.Set(of)]).  When [old] is later bound
    on a context that carries [c], the hook of [old] runs [o] and then the
    function of [c], and the hook of [t] still runs [o] alone. *)
Theorem copied_hook_keeps_value ctx ctxc t old c h i o k (args : Args) :
  t ≠ old → t ≠ c → old ≠ c → hook i →
  ContextServerTrace ctx = Some old → ContextServerTrace ctxc = Some c →
  h !! (t, i) = None →
  h !! (old, i) = Some (Callback o) →
  h !! (c, i) = Some (Callback k) →
  ∃ ctx1 h1 ctx2 h2 g,
    WithServerTrace ctx (Some t) h = Ok (ctx1, h1) ∧
    WithServerTrace ctxc (Some old) h1 = Ok (ctx2, h2) ∧
    h1 !! (t, i) = Some (Callback o) ∧
    h2 !! (t, i) = Some (Callback o) ∧
    h2 !! (old, i) = Some g ∧
    ∀ fuel, 2 ≤ fuel →
      call fuel h2 (Callback o) args = (Returned, [(o, args)]) ∧
      call fuel h2 g args = (Returned, [(o, args); (k, args)]).
Proof.
  intros Hto Htc Hoc Hh Hctx Hctxc Ht Ho Hc.
  pose (h1 := ServerTrace_compose t (Some old) h).
  pose (h2 := ServerTrace_compose old (Some c) h1).
  assert (WithServerTrace ctx (Some t) h =
          Ok (WithValue ctx serverEventContextKey (ServerTracePtr (Some t)), h1))
    as Hb1 by by rewrite WithServerTrace_Some, Hctx.
  assert (WithServerTrace ctxc (Some old) h1 =
          Ok (WithValue ctxc serverEventContextKey (ServerTracePtr (Some old)), h2))
    as Hb2 by by rewrite WithServerTrace_Some, Hctxc.
  assert (h1 !! (t, i) = Some (Callback o)) as Ht1.
  { unfold h1. by rewrite ServerTrace_compose_hook, Ht, Ho. }
  assert (h1 !! (old, i) = Some (Callback o)) as Ho1.
  { unfold h1. by rewrite ServerTrace_compose_frame. }
  assert (h1 !! (c, i) = Some (Callback k)) as Hc1.
  { unfold h1. by rewrite ServerTrace_compose_frame. }
  assert (h2 !! (t, i) = Some (Callback o)) as Ht2.
  { unfold h2. by rewrite ServerTrace_compose_frame. }
  assert (h2 !! (old, i) = Some (MakeFunc (Callback o) (c, i))) as Ho2.
  { unfold h2. by rewrite ServerTrace_compose_hook, Ho1, Hc1. }
  assert (h2 !! (c, i) = Some (Callback k)) as Hc2.
  { unfold h2. by rewrite ServerTrace_compose_frame. }
  eexists _, h1, _, h2, _. split_and!; [done..|].
  intros fuel Hfuel. destruct fuel as [|[|m]]; [lia..|]. split; [done|].
  rewrite (call_MakeFunc_Callback _ _ _ _ _ _ Hc2).
  by rewrite call_Callback by lia.
Qed.

(** X9: two traces [A] and [B] bound on the same parent context, which
    carries [P]: each child context carries its own trace, and in the
    final store the hook of [A] runs [a] then [p] and the hook of [B] runs
    [b] then [p]; neither runs the function of its sibling. *)
Theorem sibling_binds_independent ctx P A B h i p a b (args : Args) :
  NoDup [P; A; B] → hook i → ContextServerTrace ctx = Some P →
  h !! (P, i) = Some (Callback p) →
  h !! (A, i) = Some (Callback a) →
  h !! (B, i) = Some (Callback b) →
  ∃ ctxA h1 ctxB h2 fA fB,
    WithServerTrace ctx (Some A) h = Ok (ctxA, h1) ∧
    WithServerTrace ctx (Some B) h1 = Ok (ctxB, h2) ∧
    ContextServerTrace ctxA = Some A ∧ ContextServerTrace ctxB = Some B ∧
    h2 !! (A, i) = Some fA ∧ h2 !! (B, i) = Some fB ∧
    ∀ fuel, 2 ≤ fuel →
      call fuel h2 fA args = (Returned, [(a, args); (p, args)]) ∧
      call fuel h2 fB args = (Returned, [(b, args); (p, args)]).
Proof.
  intros Hnd Hh Hctx HP HA HB.
  apply NoDup_cons in Hnd as [HPn Hnd]. apply NoDup_cons in Hnd as [HAn _].
  assert (P ≠ A) by (intros ->; apply HPn; by left).
  assert (P ≠ B) by (intros ->; apply HPn; right; by left).
  assert (A ≠ B) by (intros ->; apply HAn; by left).
  pose (h1 := ServerTrace_compose A (Some P) h).
  pose (h2 := ServerTrace_compose B (Some P) h1).
  assert (WithServerTrace ctx (Some A) h =
          Ok (WithValue ctx serverEventContextKey (ServerTracePtr (Some A)), h1))
    as Hb1 by by rewrite WithServerTrace_Some, Hctx.
  assert (WithServerTrace ctx (Some B) h1 =
          Ok (WithValue ctx serverEventContextKey (ServerTracePtr (Some B)), h2))
    as Hb2 by by rewrite WithServerTrace_Some, Hctx.
  assert (h1 !! (A, i) = Some (MakeFunc (Callback a) (P, i))) as HA1.
  { unfold h1. by rewrite ServerTrace_compose_hook, HA, HP. }
  assert (h1 !! (P, i) = Some (Callback p)) as HP1.
  { unfold h1. by rewrite ServerTrace_compose_frame. }
  assert (h1 !! (B, i) = Some (Callback b)) as HB1.
  { unfold h1. by rewrite ServerTrace_compose_frame. }
  assert (h2 !! (A, i) = Some (MakeFunc (Callback a) (P, i))) as HA2.
  { unfold h2. by rewrite ServerTrace_compose_frame. }
  assert (h2 !! (P, i) = Some (Callback p)) as HP2.
  { unfold h2. by rewrite ServerTrace_compose_frame. }
  assert (h2 !! (B, i) = Some (MakeFunc (Callback b) (P, i))) as HB2.
  { unfold h2. by rewrite ServerTrace_compose_hook, HB1, HP1. }
  eexists _, h1, _, h2, _, _. split_and!; [done..|].
  intros fuel Hfuel. destruct fuel as [|[|m]]; [lia..|].
  rewrite !(call_MakeFunc_Callback _ _ _ _ _ _ HP2).
  by rewrite call_Callback by lia.
Qed.

(** X10: the entries a context carries under the keys of other packages
    are found unchanged on the context returned by any sequence of
    binds. *)
Theorem bindAll_keeps_other_keys ts : ∀ ctx (h : store) k,
  ∃ ctx' h', bindAll ctx h ts = Ok (ctx', h') ∧
    Value ctx' (otherKey k) = Value ctx (otherKey k).
Proof.
  induction ts as [|t ts IH]; intros ctx h k.
  - rewrite bindAll_nil. eauto.
  - rewrite bindAll_cons.
    destruct (IH (WithValue ctx serverEventContextKey (ServerTracePtr (Some t)))
                 (ServerTrace_compose t (ContextServerTrace ctx) h) k)
      as (ctx' & h' & -> & Hv).
    eexists _, _. split; [done|]. by rewrite Hv.
Qed.

(** A sequence of binds sees of its context only the trace it carries. *)
Lemma bindAll_same_trace ts : ∀ ctx1 ctx2 (h : store),
  ContextServerTrace ctx1 = ContextServerTrace ctx2 →
  ∃ ctx1' ctx2' h', bindAll ctx1 h ts = Ok (ctx1', h') ∧
    bindAll ctx2 h ts = Ok (ctx2', h') ∧
    ContextServerTrace ctx1' = ContextServerTrace ctx2'.
Proof.
  induction ts as [|t ts IH]; intros ctx1 ctx2 h Heq.
  - rewrite !bindAll_nil. by eexists _, _, _.
  - rewrite !bindAll_cons, Heq. by apply IH.
Qed.

(** X11: the traces shadowed on a context, and its entries under other
    keys, play no part in a bind: two contexts on which the lookup returns
    the same trace give, for the same sequence of binds, the same store
    and the same trace on the last context. *)
Theorem binds_depend_on_carried_trace (ctx1 ctx2 : Context) (h : store) ts :
  ContextServerTrace ctx1 = ContextServerTrace ctx2 →
  ∃ ctx1' ctx2' h', bindAll ctx1 h ts = Ok (ctx1', h') ∧
    bindAll ctx2 h ts = Ok (ctx2', h') ∧
    ContextServerTrace ctx1' = ContextServerTrace ctx2'.
Proof. apply bindAll_same_trace. Qed.

(** X12: a trace [P] and distinct traces [ts] not containing it, none of
    them composed before; [ts] are bound in turn on any context that
    carries [P].  The last context carries the last trace bound, and each
    of its hooks returns after running what [ts] registered for it, most
    recent first, and then what [P] registered.  Nothing is asked of the
    other traces in the store. *)
Theorem chain_on_carried_trace (ctx0 : Context) (P : nat) (h0 : store) ts :
  NoDup (P :: ts) → uncomposed h0 (P :: ts) →
  ContextServerTrace ctx0 = Some P →
  ∃ ctx h, bindAll ctx0 h0 ts = Ok (ctx, h) ∧
    ContextServerTrace ctx = last (P :: ts) ∧
    ∀ t i f (args : Args), last (P :: ts) = Some t → hook i →
      h !! (t, i) = Some f →
      ∃ N, ∀ fuel, N ≤ fuel →
        call fuel h f args = (Returned, registered h0 (P :: ts) i args).
Proof.
  intros Hnd Hun Hctx.
  destruct (bindAll_invariant h0 (P :: ts) Hnd Hun)
    as (ctx & h & Hbind & Hlast & _ & _ & Hrun).
  rewrite bindAll_cons in Hbind. simpl ServerTrace_compose in Hbind.
  destruct (bindAll_same_trace ts ctx0
              (WithValue Background serverEventContextKey
                         (ServerTracePtr (Some P))) h0)
    as (ctx1 & ctx2 & h' & Hb1 & Hb2 & Heq); [done|].
  rewrite Hbind in Hb2. injection Hb2 as <- <-.
  exists ctx1, h. split_and!; [done|congruence|].
  intros t i f args Ht Hh Hf. specialize (Hrun t i args Ht Hh).
  by rewrite Hf in Hrun.
Qed.

End Httptrace.

(** ** Facts about the sample values *)

Lemma fresh3_callbacks s f : fresh3 !! s = Some f → ∃ id, f = Callback id.
Proof.
  revert s f. apply map_Forall_lookup. unfold fresh3.
  repeat (apply map_Forall_insert_2; [eauto|]). apply map_Forall_empty.
Defined.

Lemma uncomposed_beside : uncomposed fresh3_beside [1; 2; 3].
Proof.
  intros t i f Ht. unfold fresh3_beside.
  rewrite lookup_insert_ne; [apply fresh3_callbacks|].
  intros [= <- _]. revert Ht. apply (bool_decide_unpack _). vm_compute. exact I.
Defined.

Lemma serverGoFields_no_hook i : ¬ hook serverGoFields i.
Proof. discriminate. Defined.

Lemma companionFields_no_hook i : ¬ hook companionFields i.
Proof. unfold hook. by destruct i as [|[|[|[|[|i]]]]]. Defined.

(** ** The package as declared *)


(** C10: for [ServerTrace] as either file declares it, [WithServerTrace]
    leaves every field of the trace the context carried as it was, for
    every bind.  For any field list the same holds whenever the trace
    being bound is not the very trace the context carries: [compose]
    writes fields of the new trace only. *)
Theorem declared_old_kept :
  (∀ ctx t h, keeps_old serverGoFields ctx t h) ∧
  (∀ ctx t h, keeps_old companionFields ctx t h) ∧
  (∀ S ctx t h, ContextServerTrace ctx ≠ Some t → keeps_old S ctx t h).
Proof.
  split_and!.
  - intros ctx t h. apply keeps_old_without_hooks, serverGoFields_no_hook.
  - intros ctx t h. apply keeps_old_without_hooks, companionFields_no_hook.
  - intros S ctx t h. apply keeps_old_other.
Qed.

(** C3: for [ServerTrace] as either file declares it, after any chain of
    binds from the background context the lookup returns nil (no bind) or
    the last trace bound, and every hook of it runs what the chain
    registered, most recent first.  For any field list the same holds for
    every chain of distinct traces none of which was composed before:
    each hook returns after running the functions the traces of the chain
    registered for it, once each, the most recently bound first, and is
    nil only when none registered one. *)
Theorem chains_composed (Args : Type) :
  (∀ h0 ts, chain_composed (Args := Args) serverGoFields h0 ts) ∧
  (∀ h0 ts, chain_composed (Args := Args) companionFields h0 ts) ∧
  (∀ S h0 ts, NoDup ts → uncomposed h0 ts →
     chain_composed (Args := Args) S h0 ts).
Proof.
  split_and!.
  - intros h0 ts.
    apply chain_composed_without_hooks, serverGoFields_no_hook.
  - intros h0 ts.
    apply chain_composed_without_hooks, companionFields_no_hook.
  - intros S h0 ts. apply chain_composed_distinct.
Qed.

(** ** The statements on sample values *)

Lemma fresh3_trace4 i : fresh3 !! (4, i) = None.
Proof.
  unfold fresh3. do 4 (rewrite lookup_insert_ne by congruence).
  apply lookup_singleton_ne. congruence.
Defined.

(** Binding trace 1 and then trace 2: hook 0 runs 20 and then 10. *)
Example two_traces_run :
  bindAll sampleType Background fresh3 [1; 2] =
    Ok (WithValue (ctxWith 1) serverEventContextKey (ServerTracePtr (Some 2)),
        <[(2, 2) := Callback 12]>
          (<[(2, 0) := MakeFunc (Callback 20) (1, 0)]> fresh3)) ∧
  call 2 (<[(2, 2) := Callback 12]>
            (<[(2, 0) := MakeFunc (Callback 20) (1, 0)]> fresh3))
       (MakeFunc (Callback 20) (1, 0)) () =
    (Returned, [(20, ()); (10, ())]).
Proof. split; vm_compute; reflexivity. Qed.

(** server_test.go, TestWithServerTrace: a new trace bound on the
    background context is the trace the lookup returns. *)
Example TestWithServerTrace :
  ∃ ctx, WithServerTrace [] Background (Some 1) ∅ = Ok (ctx, ∅) ∧
    ContextServerTrace ctx = Some 1.
Proof. eexists. split; reflexivity. Qed.

(** Without a func field nothing is composed. *)
Example no_hook_no_change :
  bindAll companionFields Background ∅ [1; 2; 1] =
    Ok (WithValue (WithValue (ctxWith 1) serverEventContextKey
                             (ServerTracePtr (Some 2)))
                  serverEventContextKey (ServerTracePtr (Some 1)),
        ∅).
Proof. vm_compute. reflexivity. Qed.

(** Traces 1, 2 and 3 bound in turn, beside a trace composed earlier:
    hook 0 runs 30, 20, 10 and hook 2, which trace 2 left nil, runs 32
    and 12. *)
Example three_traces_run :
  ∃ ctx h f0 f2,
    bindAll sampleType Background fresh3_beside [1; 2; 3] = Ok (ctx, h) ∧
    h !! (3, 0) = Some f0 ∧ h !! (3, 2) = Some f2 ∧
    call 3 h f0 () = (Returned, [(30, ()); (20, ()); (10, ())]) ∧
    call 2 h f2 () = (Returned, [(32, ()); (12, ())]) ∧
    registered fresh3_beside [1; 2; 3] 0 () = [(30, ()); (20, ()); (10, ())] ∧
    registered fresh3_beside [1; 2; 3] 2 () = [(32, ()); (12, ())].
Proof. eexists _, _, _, _. vm_compute. by split_and!. Qed.

Lemma first_bind_identity_witness :
  ContextServerTrace Background = None ∧
  ∃ ctx', WithServerTrace sampleType Background (Some 1) fresh3 =
            Ok (ctx', fresh3) ∧
    ContextServerTrace ctx' = Some 1.
Proof. split; [reflexivity|]. apply first_bind_identity. reflexivity. Defined.

Lemma empty_trace_passthrough_witness :
  ∃ ctx' h', WithServerTrace sampleType (ctxWith 1) (Some 4) fresh3 =
               Ok (ctx', h') ∧
    ContextServerTrace ctx' = Some 4 ∧
    (∀ i, hook sampleType i →
       h' !! (4, i) = fresh3 !! (1, i) ∧ h' !! (1, i) = fresh3 !! (1, i)) ∧
    ((∀ s g, fresh3 !! s = Some g → 4 ∉ reads g) →
     ∀ i f fuel (args : ()), h' !! (4, i) = Some f →
       call fuel h' f args = call fuel fresh3 f args).
Proof.
  apply (empty_trace_passthrough sampleType (ctxWith 1) 4 1 fresh3).
  - reflexivity.
  - exact fresh3_trace4.
Defined.

Lemma WithServerTrace_writes_new_only_witness :
  ∃ ctx' h', WithServerTrace sampleType (ctxWith 1) (Some 2) fresh3 =
               Ok (ctx', h') ∧
    ∀ i, h' !! (1, i) = fresh3 !! (1, i).
Proof. apply WithServerTrace_writes_new_only. lia. Defined.

Lemma bind_two_order_witness :
  (∃ ctx2 h2 f,
     bindAll sampleType (ctxWith 4) fresh3 [1; 2] = Ok (ctx2, h2) ∧
     ContextServerTrace ctx2 = Some 2 ∧ h2 !! (2, 0) = Some f ∧
     ∀ fuel, 2 ≤ fuel →
       call fuel h2 f () = (Returned, [(20, ()); (10, ())])) ∧
  (∃ ctx2 h2 f,
     bindAll sampleType (ctxWith 3) fresh3 [1; 2] = Ok (ctx2, h2) ∧
     ContextServerTrace ctx2 = Some 2 ∧ h2 !! (2, 0) = Some f ∧
     (∀ n, call (3 + n) h2 f () =
           after [(20, ()); (10, ())] (earlier (1 + n) h2 (ctxWith 3) 0 ())) ∧
     ∀ fuel, 3 ≤ fuel →
       call fuel h2 f () = (Returned, [(20, ()); (10, ()); (30, ())])).
Proof.
  split.
  - destruct (bind_two_order sampleType (ctxWith 4) fresh3 1 2 0 10 20 ())
      as (ctx2 & h2 & f & Hbind & Hctx & Hf & _ & Hexact & _);
      [lia | reflexivity | reflexivity | reflexivity |].
    exists ctx2, h2, f. split_and!; [done..|]. apply Hexact. reflexivity.
  - destruct (bind_two_order sampleType (ctxWith 3) fresh3 1 2 0 10 20 ())
      as (ctx2 & h2 & f & Hbind & Hctx & Hf & Hprefix & _ & Hthird);
      [lia | reflexivity | reflexivity | reflexivity |].
    exists ctx2, h2, f. split_and!; [done..|].
    apply (Hthird 3 30); [reflexivity | lia | lia | reflexivity].
Defined.

Lemma bind_three_order_witness :
  ∃ ctx3 h3 f, bindAll sampleType Background fresh3 [1; 2; 3] =
                 Ok (ctx3, h3) ∧
    ContextServerTrace ctx3 = Some 3 ∧
    h3 !! (3, 0) = Some f ∧
    ∀ fuel, 3 ≤ fuel →
      call fuel h3 f () = (Returned, [(30, ()); (20, ()); (10, ())]).
Proof.
  apply (bind_three_order sampleType Background fresh3 1 2 3 0 10 20 30 ());
    [ | reflexivity | exact I | reflexivity | reflexivity | reflexivity].
  apply (bool_decide_unpack _). vm_compute. exact I.
Defined.


Lemma declared_old_kept_witness :
  keeps_old companionFields (ctxWith 1) 1 ∅ ∧
  keeps_old sampleType (ctxWith 1) 2 fresh3.
Proof.
  split.
  - exact (proj1 (proj2 declared_old_kept) (ctxWith 1) 1 ∅).
  - apply (proj2 (proj2 declared_old_kept)). discriminate.
Defined.

Lemma chains_composed_witness :
  chain_composed (Args := ()) companionFields ∅ [1; 1] ∧
  chain_composed (Args := ()) sampleType fresh3_beside [1; 2; 3].
Proof.
  split.
  - exact (proj1 (proj2 (chains_composed ())) ∅ [1; 1]).
  - apply (proj2 (proj2 (chains_composed ()))); [|exact uncomposed_beside].
    apply (bool_decide_unpack _). vm_compute. exact I.
Defined.

Lemma bindAll_keeps_hooks_witness :
  ∃ ctx' h', bindAll sampleType Background fresh3 [3; 1; 3; 2] = Ok (ctx', h') ∧
    is_Some (h' !! (1, 2)).
Proof.
  apply (bindAll_keeps_hooks sampleType [3; 1; 3; 2] Background fresh3 (1, 2)).
  exists (Callback 12). reflexivity.
Defined.

Lemma merged_hook_nil_iff_witness :
  ∃ ctx' h', WithServerTrace sampleType (ctxWith 1) (Some 2) fresh3 =
               Ok (ctx', h') ∧
    (h' !! (2, 2) = None ↔ fresh3 !! (2, 2) = None ∧ fresh3 !! (1, 2) = None).
Proof.
  apply (merged_hook_nil_iff sampleType (ctxWith 1) 2 1 fresh3 2);
    reflexivity.
Defined.

Lemma bind_on_empty_trace_witness :
  ∃ ctx', WithServerTrace sampleType (ctxWith 4) (Some 1) fresh3 =
            Ok (ctx', fresh3) ∧
    ContextServerTrace ctx' = Some 1.
Proof.
  apply (bind_on_empty_trace sampleType (ctxWith 4) 1 4 fresh3).
  - reflexivity.
  - exact fresh3_trace4.
Defined.

Lemma rebind_carried_never_returns_witness :
  ∃ ctx' h' g, WithServerTrace sampleType (ctxWith 1) (Some 1) fresh3 =
                 Ok (ctx', h') ∧
    h' !! (1, 0) = Some g ∧
    ∀ fuel, (call fuel h' g ()).1 ≠ Returned.
Proof.
  apply (rebind_carried_never_returns sampleType (ctxWith 1) 1 fresh3 0
           (Callback 10) ()); reflexivity.
Defined.

Lemma composed_hook_follows_old_witness :
  ∃ ctx1 h1 ctx2 h2 f,
    WithServerTrace sampleType (ctxWith 2) (Some 1) fresh3 = Ok (ctx1, h1) ∧
    WithServerTrace sampleType (ctxWith 3) (Some 2) h1 = Ok (ctx2, h2) ∧
    h1 !! (1, 0) = Some f ∧ h2 !! (1, 0) = Some f ∧
    (∀ fuel, 2 ≤ fuel →
       call fuel h1 f () = (Returned, [(10, ()); (20, ())])) ∧
    (∀ fuel, 3 ≤ fuel →
       call fuel h2 f () = (Returned, [(10, ()); (20, ()); (30, ())])).
Proof.
  apply (composed_hook_follows_old sampleType (ctxWith 2) (ctxWith 3)
           1 2 3 fresh3 0 10 20 30 ());
    first [lia | reflexivity].
Defined.

Lemma copied_hook_keeps_value_witness :
  ∃ ctx1 h1 ctx2 h2 g,
    WithServerTrace sampleType (ctxWith 1) (Some 2) fresh3 = Ok (ctx1, h1) ∧
    WithServerTrace sampleType (ctxWith 3) (Some 1) h1 = Ok (ctx2, h2) ∧
    h1 !! (2, 2) = Some (Callback 12) ∧
    h2 !! (2, 2) = Some (Callback 12) ∧
    h2 !! (1, 2) = Some g ∧
    ∀ fuel, 2 ≤ fuel →
      call fuel h2 (Callback 12) () = (Returned, [(12, ())]) ∧
      call fuel h2 g () = (Returned, [(12, ()); (32, ())]).
Proof.
  apply (copied_hook_keeps_value sampleType (ctxWith 1) (ctxWith 3)
           2 1 3 fresh3 2 12 32 ());
    first [lia | reflexivity].
Defined.

Lemma sibling_binds_independent_witness :
  ∃ ctxA h1 ctxB h2 fA fB,
    WithServerTrace sampleType (ctxWith 1) (Some 2) fresh3 = Ok (ctxA, h1) ∧
    WithServerTrace sampleType (ctxWith 1) (Some 3) h1 = Ok (ctxB, h2) ∧
    ContextServerTrace ctxA = Some 2 ∧ ContextServerTrace ctxB = Some 3 ∧
    h2 !! (2, 0) = Some fA ∧ h2 !! (3, 0) = Some fB ∧
    ∀ fuel, 2 ≤ fuel →
      call fuel h2 fA () = (Returned, [(20, ()); (10, ())]) ∧
      call fuel h2 fB () = (Returned, [(30, ()); (10, ())]).
Proof.
  apply (sibling_binds_independent sampleType (ctxWith 1) 1 2 3 fresh3 0
           10 20 30 ());
    [ | reflexivity..].
  apply (bool_decide_unpack _). vm_compute. exact I.
Defined.

Lemma binds_depend_on_carried_trace_witness :
  ∃ ctx1' ctx2' h',
    bindAll sampleType (ctxWith 1) fresh3 [2; 3] = Ok (ctx1', h') ∧
    bindAll sampleType
      (WithValue (WithValue (ctxWith 3) serverEventContextKey
                            (ServerTracePtr (Some 1)))
                 (otherKey 7) (otherValue 0)) fresh3 [2; 3] = Ok (ctx2', h') ∧
    ContextServerTrace ctx1' = ContextServerTrace ctx2'.
Proof. apply binds_depend_on_carried_trace. reflexivity. Defined.

Lemma chain_on_carried_trace_witness :
  ∃ ctx h, bindAll sampleType
             (WithValue (ctxWith 1) (otherKey 7) (otherValue 0))
             fresh3_beside [2; 3] = Ok (ctx, h) ∧
    ContextServerTrace ctx = last [1; 2; 3] ∧
    ∀ t i f (args : ()), last [1; 2; 3] = Some t → hook sampleType i →
      h !! (t, i) = Some f →
      ∃ N, ∀ fuel, N ≤ fuel →
        call fuel h f args =
          (Returned, registered fresh3_beside [1; 2; 3] i args).
Proof.
  apply (chain_on_carried_trace sampleType
           (WithValue (ctxWith 1) (otherKey 7) (otherValue 0)) 1
           fresh3_beside [2; 3]).
  - apply (bool_decide_unpack _). vm_compute. exact I.
  - exact uncomposed_beside.
  - reflexivity.
Defined.
